(** * fitcheck: the voice-capture-to-recommendation pipeline of [src/App.tsx]

    A shallow embedding of the [App] component's state, of its event
    handlers and of the keyword dispatch of
    [generateOutfitRecommendations], followed by the properties the
    specification states about them.

    Strings.  A JavaScript string is a sequence of UTF-16 code units.  The
    development covers the code units below 256 (the Latin-1 range), which
    are the characters of Rocq's [ascii]: on that range [toLowerCase] maps
    one code unit to one code unit, without context, and is written out in
    [lowerChar].  Every literal of the source is in that range. *)

From Stdlib Require Import String Ascii List Bool Arith Lia.
Import ListNotations.
Local Open Scope string_scope.
Local Open Scope list_scope.

(** ** Strings: [String.prototype.toLowerCase] and [String.prototype.includes] *)

Module JsString.

(** The code units with a different lower-case form: A-Z, and the Latin-1
    capitals U+00C0..U+00DE without the multiplication sign U+00D7. *)
Definition isUpper (c : ascii) : bool :=
  let n := nat_of_ascii c in
  (((65 <=? n) && (n <=? 90))
   || ((192 <=? n) && (n <=? 214))
   || ((216 <=? n) && (n <=? 222)))%nat.

Definition lowerChar (c : ascii) : ascii :=
  if isUpper c then ascii_of_nat (nat_of_ascii c + 32) else c.

Fixpoint toLowerCase (s : string) : string :=
  match s with
  | EmptyString => EmptyString
  | String c s' => String (lowerChar c) (toLowerCase s')
  end.

(** [startsWith s k]: [k] is a prefix of [s]. *)
Fixpoint startsWith (s k : string) : bool :=
  match k, s with
  | EmptyString, _ => true
  | String _ _, EmptyString => false
  | String a k', String b s' => Ascii.eqb a b && startsWith s' k'
  end.

(** [includes s k]: [k] occurs in [s] at some position (searched from
    position 0, the default of the second argument). *)
Fixpoint includes (s k : string) : bool :=
  startsWith s k
  || match s with
     | EmptyString => false
     | String _ s' => includes s' k
     end.

(** JavaScript truthiness of a string: the empty string is falsy. *)
Definition truthy (s : string) : bool :=
  match s with EmptyString => false | String _ _ => true end.

(** [a || b] on strings. *)
Definition orElse (a b : string) : string :=
  if truthy a then a else b.

(** A lower-case ASCII letter, a..z. *)
Definition isLowerAZ (c : ascii) : bool :=
  let n := nat_of_ascii c in ((97 <=? n) && (n <=? 122))%nat.

Fixpoint allLowerAZ (s : string) : bool :=
  match s with
  | EmptyString => true
  | String c s' => isLowerAZ c && allLowerAZ s'
  end.

(** [sameLetter k c]: the character [c] is the letter [k] or its capital
    (32 code units below). *)
Definition sameLetter (k c : ascii) : Prop :=
  c = k \/ nat_of_ascii c + 32 = nat_of_ascii k.

(** [ciMatch k m]: [m] spells [k], letter by letter, in any mix of cases. *)
Inductive ciMatch : string -> string -> Prop :=
| ciMatch_nil : ciMatch EmptyString EmptyString
| ciMatch_cons (k c : ascii) (ks cs : string) :
    sameLetter k c -> ciMatch ks cs -> ciMatch (String k ks) (String c cs).

(** [containsCI phrase k]: [k] occurs in [phrase] in any mix of cases,
    with any text before and after it. *)
Definition containsCI (phrase k : string) : Prop :=
  exists pre mid post : string,
    phrase = (pre ++ mid ++ post)%string /\ ciMatch k mid.

End JsString.

Import JsString.

(** ** The recommendation data *)

(** The three icon components imported from lucide-react that the
    recommendations refer to. *)
Inductive Icon : Type := Shirt | ShoppingBag | Footprints.

Record OutfitRecommendation : Type := mkRec {
  category : string;
  items : list string;
  icon : Icon
}.

Definition examplePrompts : list string :=
  [ "Going to a dinner date"; "Meeting friends for brunch"; "Heading to work" ].

Definition dateNightSet : list OutfitRecommendation :=
  [ mkRec "Top"
      ["Fitted button-down shirt"; "Slim-fit blazer"; "Dark colored polo"] Shirt;
    mkRec "Bottom"
      ["Dark wash jeans"; "Chinos in navy or grey"; "Tailored dress pants"] ShoppingBag;
    mkRec "Footwear"
      ["Chelsea boots"; "Leather loafers"; "Clean white sneakers"] Footprints ].

Definition brunchSet : list OutfitRecommendation :=
  [ mkRec "Top"
      ["Casual henley"; "Light sweater"; "Graphic tee with overshirt"] Shirt;
    mkRec "Bottom"
      ["Light wash jeans"; "Khaki chinos"; "Comfortable joggers"] ShoppingBag;
    mkRec "Footwear"
      ["Canvas sneakers"; "Casual loafers"; "Stylish sandals"] Footprints ].

Definition workSet : list OutfitRecommendation :=
  [ mkRec "Top"
      ["Crisp dress shirt"; "Professional blazer"; "Knit polo"] Shirt;
    mkRec "Bottom"
      ["Dress pants"; "Grey wool trousers"; "Dark chinos"] ShoppingBag;
    mkRec "Footwear"
      ["Oxford dress shoes"; "Derby shoes"; "Minimalist leather sneakers"] Footprints ].

Definition casualSet : list OutfitRecommendation :=
  [ mkRec "Top"
      ["Comfortable t-shirt"; "Casual button-up"; "Lightweight hoodie"] Shirt;
    mkRec "Bottom"
      ["Versatile jeans"; "Casual chinos"; "Comfortable shorts"] ShoppingBag;
    mkRec "Footwear"
      ["Classic sneakers"; "Casual shoes"; "Comfortable slip-ons"] Footprints ].

(** The value of the local [recommendations] that
    [generateOutfitRecommendations input] computes before it stores it
    (the specification calls this function [resolve]). *)
Definition resolve (input : string) : list OutfitRecommendation :=
  let lowerInput := toLowerCase input in
  if includes lowerInput "date" || includes lowerInput "dinner" then
    dateNightSet
  else if includes lowerInput "brunch" || includes lowerInput "friends" then
    brunchSet
  else if includes lowerInput "work" || includes lowerInput "office" then
    workSet
  else
    casualSet.

(** ** The platform speech recognizer

    The browser's recognizer is an external collaborator.  What the
    component does to it is recorded: the three properties it sets and the
    [start()] and [stop()] calls it makes, oldest first. *)

Module Platform.

Inductive Call : Type := Start | Stop.

Record SpeechRecognition : Type := mkRecognition {
  continuous : bool;
  interimResults : bool;
  lang : string;
  calls : list Call
}.

(** One entry of [event.results]: [transcript] is [results[i][0].transcript],
    the text of the first alternative. *)
Record SpeechRecognitionResult : Type := mkResult {
  transcript : string;
  isFinal : bool
}.

Record SpeechRecognitionEvent : Type := mkEvent {
  results : list SpeechRecognitionResult;
  resultIndex : nat
}.

Record SpeechRecognitionErrorEvent : Type := mkError {
  error : string
}.

(** Which of the two constructors the [window] object has. *)
Record Window : Type := mkWindow {
  hasSpeechRecognition : bool;
  hasWebkitSpeechRecognition : bool
}.

(** [new SpeechRecognitionAPI()]: a recognizer with the platform's
    defaults and no call made yet. *)
Definition create : SpeechRecognition :=
  mkRecognition false false "" [].

(** Assigning [continuous], [interimResults] and [lang]. *)
Definition configure (c i : bool) (l : string) (r : SpeechRecognition)
  : SpeechRecognition :=
  mkRecognition c i l (calls r).

Definition call (c : Call) (r : SpeechRecognition) : SpeechRecognition :=
  mkRecognition (continuous r) (interimResults r) (lang r) (calls r ++ [c]).

End Platform.

(** ** The component state

    The four [useState] cells and the [useRef] cell of [App], the timers
    set by [setTimeout] that have not fired yet (each holds the
    [finalTranscript] its callback captured; all have the same delay, so
    they fire in the order they were set), and the lines written with
    [console.error]. *)

Record State : Type := mkState {
  isListening : bool;
  transcript : string;
  showResults : bool;
  outfitRecommendations : list OutfitRecommendation;
  recognitionRef : option Platform.SpeechRecognition;
  timers : list string;
  console : list (list string)
}.

(** A handler runs to completion on the state. *)
Definition Handler : Type := State -> State.

Definition andThen (f g : Handler) : Handler := fun s => g (f s).
Notation "f ;; g" := (andThen f g) (at level 61, left associativity).

Definition skip : Handler := fun s => s.

Definition setIsListening (b : bool) : Handler := fun s =>
  mkState b (transcript s) (showResults s) (outfitRecommendations s)
          (recognitionRef s) (timers s) (console s).

Definition setTranscript (t : string) : Handler := fun s =>
  mkState (isListening s) t (showResults s) (outfitRecommendations s)
          (recognitionRef s) (timers s) (console s).

Definition setShowResults (b : bool) : Handler := fun s =>
  mkState (isListening s) (transcript s) b (outfitRecommendations s)
          (recognitionRef s) (timers s) (console s).

Definition setOutfitRecommendations (r : list OutfitRecommendation) : Handler :=
  fun s =>
  mkState (isListening s) (transcript s) (showResults s) r
          (recognitionRef s) (timers s) (console s).

(** [recognitionRef.current.start()] and [.stop()], reached only where the
    handler has tested [recognitionRef.current]. *)
Definition recognitionCall (c : Platform.Call) : Handler := fun s =>
  mkState (isListening s) (transcript s) (showResults s) (outfitRecommendations s)
          (option_map (Platform.call c) (recognitionRef s)) (timers s) (console s).

(** [setTimeout(() => generateOutfitRecommendations(finalTranscript), 500)]. *)
Definition setTimeout (finalTranscript : string) : Handler := fun s =>
  mkState (isListening s) (transcript s) (showResults s) (outfitRecommendations s)
          (recognitionRef s) (timers s ++ [finalTranscript]) (console s).

Definition dropTimer : Handler := fun s =>
  mkState (isListening s) (transcript s) (showResults s) (outfitRecommendations s)
          (recognitionRef s) (tl (timers s)) (console s).

Definition consoleError (args : list string) : Handler := fun s =>
  mkState (isListening s) (transcript s) (showResults s) (outfitRecommendations s)
          (recognitionRef s) (timers s) (console s ++ [args]).

(** [recognitionRef.current] as a condition. *)
Definition hasRecognition (s : State) : bool :=
  match recognitionRef s with Some _ => true | None => false end.

(** ** The handlers

    Each handler is the one the latest render made: where its guard reads
    [isListening], it reads the value of the state it runs on. *)

Definition generateOutfitRecommendations (input : string) : Handler :=
  setOutfitRecommendations (resolve input) ;;
  setShowResults true ;;
  setIsListening false.

(** The loop of [onresult]: [n] iterations from index [i], appending each
    entry's text to [finalTranscript] or to [interimTranscript]; the result
    is the pair (interimTranscript, finalTranscript). *)
Fixpoint collect (rs : list Platform.SpeechRecognitionResult) (i n : nat)
         (interimTranscript finalTranscript : string) : string * string :=
  match n with
  | O => (interimTranscript, finalTranscript)
  | S n' =>
      match nth_error rs i with
      | None => (interimTranscript, finalTranscript)
      | Some r =>
          let transcriptText := Platform.transcript r in
          if Platform.isFinal r then
            collect rs (S i) n' interimTranscript
                    (finalTranscript ++ transcriptText)%string
          else
            collect rs (S i) n' (interimTranscript ++ transcriptText)%string
                    finalTranscript
      end
  end.

(** The loop runs for [i] from [event.resultIndex] while
    [i < event.results.length]. *)
Definition transcripts (event : Platform.SpeechRecognitionEvent) : string * string :=
  collect (Platform.results event) (Platform.resultIndex event)
          (length (Platform.results event) - Platform.resultIndex event) "" "".

Definition onresult (event : Platform.SpeechRecognitionEvent) : Handler :=
  let interimTranscript := fst (transcripts event) in
  let finalTranscript := snd (transcripts event) in
  setTranscript (orElse finalTranscript interimTranscript) ;;
  (if truthy finalTranscript then setTimeout finalTranscript else skip).

Definition onerror (event : Platform.SpeechRecognitionErrorEvent) : Handler :=
  consoleError ["Speech recognition error:"; Platform.error event] ;;
  setIsListening false.

Definition onend : Handler := setIsListening false.

Definition startListening : Handler := fun s =>
  if hasRecognition s && negb (isListening s) then
    (setTranscript "" ;;
     setShowResults false ;;
     setIsListening true ;;
     recognitionCall Platform.Start) s
  else s.

Definition stopListening : Handler := fun s =>
  if hasRecognition s && isListening s then
    (recognitionCall Platform.Stop ;;
     setIsListening false) s
  else s.

Definition handlePromptClick (prompt : string) : Handler :=
  setTranscript prompt ;;
  generateOutfitRecommendations prompt.

Definition resetApp : Handler :=
  setShowResults false ;;
  setTranscript "" ;;
  setOutfitRecommendations [].

(** The oldest pending timer fires: its callback calls
    [generateOutfitRecommendations] on the text it captured. *)
Definition fireTimer : Handler := fun s =>
  match timers s with
  | [] => s
  | finalTranscript :: _ =>
      (dropTimer ;; generateOutfitRecommendations finalTranscript) s
  end.

(** The state after the first render and the mount effect: the recognizer
    is created, and configured, when the window has either constructor. *)
Definition mount (window : Platform.Window) : State :=
  mkState false "" false []
    (if Platform.hasSpeechRecognition window
        || Platform.hasWebkitSpeechRecognition window
     then Some (Platform.configure false true "en-US" Platform.create)
     else None)
    [] [].

(** ** Sessions

    The specification's session state, read off the two flags: the results
    view is shown ([Resolved]), or else capture is on ([Listening]), or
    else neither ([Idle]). *)

Inductive SessionState : Type := Idle | Listening | Resolved.

Definition sessionState (s : State) : SessionState :=
  if showResults s then Resolved
  else if isListening s then Listening
  else Idle.

(** What can happen to the component: a handler runs. *)
Inductive Action : Type :=
| StartListening
| StopListening
| PromptClick (prompt : string)
| ResetApp
| OnResult (event : Platform.SpeechRecognitionEvent)
| OnError (event : Platform.SpeechRecognitionErrorEvent)
| OnEnd
| TimerFires.

Definition perform (a : Action) : Handler :=
  match a with
  | StartListening => startListening
  | StopListening => stopListening
  | PromptClick prompt => handlePromptClick prompt
  | ResetApp => resetApp
  | OnResult event => onresult event
  | OnError event => onerror event
  | OnEnd => onend
  | TimerFires => fireTimer
  end.


Definition anyTime (a : Action) (s : State) : bool := true.

(** The states a session reaches from [mount window] through actions that
    [allowed] admits. *)
Inductive reachableBy (allowed : Action -> State -> bool)
          (window : Platform.Window) : State -> Prop :=
| reach_mount : reachableBy allowed window (mount window)
| reach_step (a : Action) (s : State) :
    reachableBy allowed window s ->
    allowed a s = true ->
    reachableBy allowed window (perform a s).

(** Every handler may run in every state. *)
Definition reachable : Platform.Window -> State -> Prop := reachableBy anyTime.



(** The results view and capture are never on together. *)
Definition notBoth (s : State) : Prop :=
  showResults s = true -> isListening s = false.

(** ** The specification's reading of a result event and of the dispatch *)

(** The segments an event delivers: the entries of [results] from
    [resultIndex] on. *)
Definition segments (event : Platform.SpeechRecognitionEvent)
  : list Platform.SpeechRecognitionResult :=
  skipn (Platform.resultIndex event) (Platform.results event).

Definition textOf (rs : list Platform.SpeechRecognitionResult) : string :=
  String.concat "" (map Platform.transcript rs).

Definition finalText (event : Platform.SpeechRecognitionEvent) : string :=
  textOf (filter Platform.isFinal (segments event)).

Definition interimText (event : Platform.SpeechRecognitionEvent) : string :=
  textOf (filter (fun r => negb (Platform.isFinal r)) (segments event)).

(** The keyword groups in their priority order, each with its outfit set. *)
Definition keywordGroups : list (list string * list OutfitRecommendation) :=
  [ (["date"; "dinner"], dateNightSet);
    (["brunch"; "friends"], brunchSet);
    (["work"; "office"], workSet) ].

(** The set of the first group one of whose keywords occurs in [lower]. *)
Fixpoint firstMatch (groups : list (list string * list OutfitRecommendation))
         (lower : string) : option (list OutfitRecommendation) :=
  match groups with
  | [] => None
  | (keywords, set) :: rest =>
      if existsb (includes lower) keywords then Some set
      else firstMatch rest lower
  end.

(** The dispatch as the specification words it: lower-case the phrase, take
    the first matching group, fall back to the casual set. *)
Definition resolveByPriority (phrase : string) : list OutfitRecommendation :=
  match firstMatch keywordGroups (toLowerCase phrase) with
  | Some set => set
  | None => casualSet
  end.

(** Stopping cancels the pending resolution: the session is idle after
    [stopListening], and however many pending timers fire afterwards, no
    recommendation appears. *)
Definition stopCancelsResolution (s : State) : Prop :=
  sessionState (stopListening s) = Idle
  /\ forall n, outfitRecommendations (Nat.iter n fireTimer (stopListening s)) = [].


(** ** Sample sessions *)

Definition chrome : Platform.Window := Platform.mkWindow true true.

Definition noSpeech : Platform.Window := Platform.mkWindow false false.

Definition workEvent : Platform.SpeechRecognitionEvent :=
  Platform.mkEvent [Platform.mkResult "Heading to work" true] 0.

(** Capture was started and the recognizer delivered a final transcript;
    its settle timer is pending. *)
Definition heardWork : State :=
  onresult workEvent (startListening (mount chrome)).

(** An example prompt was clicked: the results view shows the work set. *)
Definition resolvedWork : State :=
  handlePromptClick "Heading to work" (mount chrome).

(** ** The rendered view

    What [App] returns, without the styling and the animation: the input
    view when [showResults] is off, the results view when it is on.  While
    one view animates out, its buttons stay mounted; [render] is the view
    that the state calls for. *)

(** One card of the results view: its React [key] and its heading are
    [rec.category], its icon [rec.icon], its lines [rec.items]. *)
Record Card : Type := mkCard {
  cardKey : string;
  cardIcon : Icon;
  cardHeading : string;
  cardLines : list string
}.

Inductive View : Type :=
| InputView (promptButtons : list string) (micOnClick : Action)
            (micLabel : string) (transcriptBox : option string)
| ResultsView (forLine : string) (cards : list Card).

Definition card (rec : OutfitRecommendation) : Card :=
  mkCard (category rec) (icon rec) (category rec) (items rec).

Definition render (s : State) : View :=
  if showResults s then
    ResultsView ("For: " ++ transcript s) (map card (outfitRecommendations s))
  else
    InputView examplePrompts
              (if isListening s then StopListening else StartListening)
              (if isListening s then "Listening..." else "Tap to speak")
              (if truthy (transcript s) then Some (transcript s) else None).

(** ** Runs *)

(** The handlers of a list of actions, run in order. *)
Definition run (actions : list Action) : Handler := fun s =>
  fold_left (fun st a => perform a st) actions s.

(** The console lines that the error events of a run write. *)
Fixpoint errorLines (actions : list Action) : list (list string) :=
  match actions with
  | [] => []
  | OnError event :: rest =>
      ["Speech recognition error:"; Platform.error event] :: errorLines rest
  | _ :: rest => errorLines rest
  end.

(** The calls made on the recognizer so far; none without a recognizer. *)
Definition platformCalls (s : State) : list Platform.Call :=
  match recognitionRef s with
  | Some r => Platform.calls r
  | None => []
  end.

(** * Properties *)

(** ** Strings *)

Module JsStringFacts.

Ltac cases_leb :=
  repeat match goal with
         | |- context [Nat.leb ?a ?b] => destruct (Nat.leb_spec a b)
         | H : context [Nat.leb ?a ?b] |- _ => destruct (Nat.leb_spec a b)
         end.

Lemma toLowerCase_app (a b : string) :
  toLowerCase (a ++ b) = (toLowerCase a ++ toLowerCase b)%string.
Proof.
  induction a as [|c a IH]; simpl; [reflexivity | now rewrite IH].
Qed.

Lemma startsWith_app (k post : string) : startsWith (k ++ post) k = true.
Proof.
  induction k as [|c k IH]; simpl.
  - destruct post; reflexivity.
  - now rewrite Ascii.eqb_refl, IH.
Qed.

Lemma startsWith_split (s k : string) :
  startsWith s k = true -> exists post, s = (k ++ post)%string.
Proof.
  revert s; induction k as [|a k IH]; intros s H.
  - exists s; reflexivity.
  - destruct s as [|b s]; simpl in H; [discriminate|].
    apply andb_prop in H as [Hab Hk].
    apply Ascii.eqb_eq in Hab; subst b.
    destruct (IH _ Hk) as [post ->].
    exists post; reflexivity.
Qed.

Lemma includes_startsWith (s k : string) :
  startsWith s k = true -> includes s k = true.
Proof.
  intros H; destruct s; cbn [includes]; now rewrite H.
Qed.

Lemma includes_app (pre k post : string) :
  includes (pre ++ k ++ post) k = true.
Proof.
  induction pre as [|c pre IH]; simpl.
  - apply includes_startsWith, startsWith_app.
  - rewrite IH; apply orb_true_r.
Qed.

(** [includes] is substring membership. *)
Lemma includes_spec (s k : string) :
  includes s k = true <-> exists pre post, s = (pre ++ k ++ post)%string.
Proof.
  split.
  - induction s as [|c s IH]; cbn [includes]; intros H.
    + rewrite orb_false_r in H.
      apply startsWith_split in H as [post ->].
      exists EmptyString, post; reflexivity.
    + apply orb_prop in H as [H | H].
      * apply startsWith_split in H as [post ->].
        exists EmptyString, post; reflexivity.
      * destruct (IH H) as (pre & post & ->).
        exists (String c pre), post; reflexivity.
  - intros (pre & post & ->); apply includes_app.
Qed.

Lemma lowerChar_sameLetter (k c : ascii) :
  isLowerAZ k = true -> sameLetter k c -> lowerChar c = k.
Proof.
  unfold isLowerAZ, sameLetter, lowerChar, isUpper; intros Hk [-> | Hc].
  - cases_leb; simpl in *; try discriminate; try lia; reflexivity.
  - rewrite Hc, ascii_nat_embedding.
    cases_leb; simpl in *; try discriminate; try lia; reflexivity.
Qed.

Lemma ciMatch_toLowerCase (k m : string) :
  allLowerAZ k = true -> ciMatch k m -> toLowerCase m = k.
Proof.
  intros Hk Hm; induction Hm as [|k c ks cs Hc _ IH]; simpl in *.
  - reflexivity.
  - apply andb_prop in Hk as [Hk Hks].
    now rewrite (lowerChar_sameLetter k c Hk Hc), (IH Hks).
Qed.

(** A keyword of lower-case letters that occurs in the phrase in any mix
    of cases occurs in the lower-cased phrase. *)
Lemma containsCI_includes (phrase k : string) :
  allLowerAZ k = true -> containsCI phrase k ->
  includes (toLowerCase phrase) k = true.
Proof.
  intros Hk (pre & mid & post & -> & Hm).
  rewrite !toLowerCase_app, (ciMatch_toLowerCase k mid Hk Hm).
  apply includes_app.
Qed.

Lemma ciMatch_refl (k : string) : ciMatch k k.
Proof.
  induction k; constructor; [left; reflexivity | assumption].
Qed.

End JsStringFacts.

Import JsStringFacts.

(** ** The resolver *)

Lemma resolve_cases (phrase : string) :
  In (resolve phrase) [dateNightSet; brunchSet; workSet; casualSet].
Proof.
  unfold resolve.
  repeat match goal with
         | |- context [if ?b then _ else _] => destruct b
         end; simpl; auto.
Qed.

Lemma resolve_no_match (phrase : string) :
  (forall k, In k ["date"; "dinner"; "brunch"; "friends"; "work"; "office"] ->
             includes (toLowerCase phrase) k = false) ->
  resolve phrase = casualSet.
Proof.
  intros H; unfold resolve.
  rewrite !H by (simpl; auto 10).
  reflexivity.
Qed.

(** C1.  For every phrase the dispatch tests the keyword groups in the order
    date/dinner, brunch/friends, work/office, and the first group with a
    keyword in the lower-cased phrase decides the set.  So a phrase with
    both "brunch" and "work", and no keyword of the first group, gets the
    brunch set; "brunch after work" does. *)
Theorem resolve_priority_order (phrase : string) :
  resolve phrase = resolveByPriority phrase
  /\ (includes (toLowerCase phrase) "date" = false ->
      includes (toLowerCase phrase) "dinner" = false ->
      includes (toLowerCase phrase) "brunch" = true ->
      includes (toLowerCase phrase) "work" = true ->
      resolve phrase = brunchSet)
  /\ resolve "brunch after work" = brunchSet.
Proof.
  split; [|split].
  - unfold resolve, resolveByPriority, keywordGroups, firstMatch, existsb.
    rewrite !orb_false_r.
    repeat match goal with
           | |- context [if ?b then _ else _] => destruct b
           end; reflexivity.
  - intros Hdate Hdinner Hbrunch _; unfold resolve.
    now rewrite Hdate, Hdinner, Hbrunch.
  - reflexivity.
Qed.

Lemma resolve_priority_order_witness :
  resolve "Brunch after WORK" = brunchSet.
Proof.
  destruct (resolve_priority_order "Brunch after WORK") as (_ & H & _).
  apply H; reflexivity.
Defined.

(** C2.  A phrase in which "date" or "dinner" occurs, in any mix of cases
    and with any text around it, resolves to the date-night set: the three
    categories Top, Bottom and Footwear with the items listed. *)
Theorem resolve_date_or_dinner (phrase : string) :
  containsCI phrase "date" \/ containsCI phrase "dinner" ->
  map (fun r => (category r, items r)) (resolve phrase) =
  [ ("Top", ["Fitted button-down shirt"; "Slim-fit blazer"; "Dark colored polo"]);
    ("Bottom", ["Dark wash jeans"; "Chinos in navy or grey"; "Tailored dress pants"]);
    ("Footwear", ["Chelsea boots"; "Leather loafers"; "Clean white sneakers"]) ].
Proof.
  intros H; unfold resolve.
  destruct H as [H | H];
    apply containsCI_includes in H; try reflexivity; rewrite H.
  - reflexivity.
  - rewrite orb_true_r; reflexivity.
Qed.

Lemma resolve_date_or_dinner_witness :
  map (fun r => (category r, items r)) (resolve "Work DINNER with friends") =
  map (fun r => (category r, items r)) dateNightSet.
Proof.
  apply (resolve_date_or_dinner "Work DINNER with friends").
  right; exists "Work ", "DINNER", " with friends"; split; [reflexivity|].
  repeat (apply ciMatch_cons; [right; reflexivity|]); apply ciMatch_nil.
Defined.

(** C7.  The resolver returns, for every phrase, three recommendations,
    with the categories Top, Bottom, Footwear in that order and three items
    each; when no keyword occurs in the lower-cased phrase, and so for the
    empty phrase, they are the casual set. *)
Theorem resolve_well_formed (phrase : string) :
  map category (resolve phrase) = ["Top"; "Bottom"; "Footwear"]
  /\ Forall (fun r => length (items r) = 3) (resolve phrase)
  /\ ((forall k, In k ["date"; "dinner"; "brunch"; "friends"; "work"; "office"] ->
                 includes (toLowerCase phrase) k = false) ->
      resolve phrase = casualSet)
  /\ resolve "" = casualSet.
Proof.
  split; [|split; [|split]].
  - destruct (resolve_cases phrase) as [<- | [<- | [<- | [<- | []]]]]; reflexivity.
  - destruct (resolve_cases phrase) as [<- | [<- | [<- | [<- | []]]]];
      repeat constructor.
  - apply resolve_no_match.
  - reflexivity.
Qed.

Lemma resolve_well_formed_witness :
  resolve "going for a walk" = casualSet.
Proof.
  destruct (resolve_well_formed "going for a walk") as (_ & _ & H & _).
  apply H; intros k Hk; simpl in Hk.
  repeat (destruct Hk as [<- | Hk]; [reflexivity|]); destruct Hk.
Defined.

(** ** Result events *)

Section Collect.

Local Open Scope string_scope.

Lemma append_empty_r (a : string) : a ++ "" = a.
Proof.
  induction a as [|c a IH]; simpl; [reflexivity | now rewrite IH].
Qed.

Lemma append_assoc (a b c : string) : (a ++ b) ++ c = a ++ (b ++ c).
Proof.
  induction a as [|x a IH]; simpl; [reflexivity | now rewrite IH].
Qed.

Lemma textOf_cons (r : Platform.SpeechRecognitionResult)
      (rs : list Platform.SpeechRecognitionResult) :
  textOf (r :: rs) = Platform.transcript r ++ textOf rs.
Proof.
  unfold textOf; destruct rs as [|r' rs]; simpl.
  - now rewrite append_empty_r.
  - reflexivity.
Qed.

Lemma skipn_nth_error {A : Type} (l : list A) (i : nat) (x : A) :
  nth_error l i = Some x -> skipn i l = x :: skipn (S i) l.
Proof.
  revert i; induction l as [|y l IH]; intros [|i] H; simpl in *;
    try discriminate.
  - now injection H as ->.
  - now apply IH.
Qed.

(** The loop, run for exactly the remaining entries, appends the final
    texts and the interim texts of those entries, in order. *)
Lemma collect_skipn (rs : list Platform.SpeechRecognitionResult) (n : nat) :
  forall i interim final,
    n = length rs - i ->
    collect rs i n interim final =
    (interim ++ textOf (filter (fun r => negb (Platform.isFinal r)) (skipn i rs)),
     final ++ textOf (filter Platform.isFinal (skipn i rs))).
Proof.
  induction n as [|n IH]; intros i interim final Hn; simpl.
  - rewrite skipn_all2 by lia; simpl.
    now rewrite !append_empty_r.
  - destruct (nth_error rs i) as [r|] eqn:Hr.
    + rewrite (skipn_nth_error _ _ _ Hr); simpl.
      destruct (Platform.isFinal r); simpl;
        rewrite IH by lia; rewrite textOf_cons, append_assoc; reflexivity.
    + apply nth_error_None in Hr; lia.
Qed.

Lemma transcripts_spec (event : Platform.SpeechRecognitionEvent) :
  transcripts event = (interimText event, finalText event).
Proof.
  unfold transcripts; rewrite collect_skipn by reflexivity; reflexivity.
Qed.

End Collect.

(** C3.  After a result event the displayed transcript is the concatenation
    of the event's final segments when that is not empty, and otherwise the
    concatenation of its interim segments.  The event's segments are the
    entries of [results] from [resultIndex] on. *)
Theorem onresult_transcript (event : Platform.SpeechRecognitionEvent) (s : State) :
  transcript (onresult event s) =
  match finalText event with
  | EmptyString => interimText event
  | String _ _ => finalText event
  end.
Proof.
  unfold onresult; rewrite transcripts_spec; simpl.
  unfold orElse, andThen, skip.
  destruct (finalText event); reflexivity.
Qed.

(** ** Sessions *)

Ltac unfold_handlers :=
  unfold perform, startListening, stopListening, handlePromptClick, resetApp,
    onresult, onerror, onend, fireTimer, generateOutfitRecommendations,
    andThen, skip, setIsListening, setTranscript, setShowResults,
    setOutfitRecommendations, recognitionCall, setTimeout, dropTimer,
    consoleError, hasRecognition in *.

Ltac split_ifs :=
  repeat match goal with
         | |- context [if ?b then _ else _] => destruct b eqn:?
         | |- context [match ?l with [] => _ | _ :: _ => _ end] => destruct l eqn:?
         | |- context [match ?o with Some _ => _ | None => _ end] => destruct o eqn:?
         end.

Lemma resolve_nonempty (phrase : string) : resolve phrase <> [].
Proof.
  destruct (resolve_cases phrase) as [<- | [<- | [<- | [<- | []]]]]; discriminate.
Qed.







(** In every reachable state, whatever ran, the results view and capture
    are not on together. *)
Lemma reachable_notBoth (allowed : Action -> State -> bool)
      (window : Platform.Window) (s : State) :
  reachableBy allowed window s -> notBoth s.
Proof.
  induction 1 as [|a s Hs IH _]; unfold notBoth in *.
  - discriminate.
  - destruct a; unfold_handlers; destruct s as [l t r o rf tm c];
      simpl in *; split_ifs; simpl; auto; try discriminate.
Qed.

(** Without either constructor in the window there is no recognizer, and
    capture is never on. *)
Lemma reachable_absent (window : Platform.Window) (s : State) :
  Platform.hasSpeechRecognition window = false ->
  Platform.hasWebkitSpeechRecognition window = false ->
  reachable window s ->
  recognitionRef s = None /\ isListening s = false.
Proof.
  intros H1 H2; induction 1 as [|a s Hs [IHr IHl] _].
  - unfold mount; rewrite H1, H2; split; reflexivity.
  - destruct a; unfold_handlers; destruct s as [l t r o rf tm c];
      simpl in *; subst; simpl; split_ifs; simpl; auto.
Qed.

(** C4, as the code has it.  [stopListening], run while listening with a
    settle timer pending, makes the session idle and touches neither the
    recommendations nor the timers: the timer is still pending, and when it
    fires the resolution of its transcript takes place and the session is
    resolved. *)
Theorem stop_keeps_pending_resolution (s : State) (finalTranscript : string)
        (rest : list string) :
  hasRecognition s = true ->
  sessionState s = Listening ->
  timers s = finalTranscript :: rest ->
  sessionState (stopListening s) = Idle
  /\ outfitRecommendations (stopListening s) = outfitRecommendations s
  /\ timers (stopListening s) = finalTranscript :: rest
  /\ outfitRecommendations (fireTimer (stopListening s)) = resolve finalTranscript
  /\ sessionState (fireTimer (stopListening s)) = Resolved.
Proof.
  unfold sessionState; unfold_handlers.
  destruct s as [l t r o [rf|] tm c]; simpl; try discriminate.
  intros _ Hl ->; destruct r, l; try discriminate.
  simpl; repeat split.
Qed.

Lemma stop_keeps_pending_resolution_witness :
  sessionState (stopListening heardWork) = Idle
  /\ outfitRecommendations (stopListening heardWork) = outfitRecommendations heardWork
  /\ timers (stopListening heardWork) = ["Heading to work"]
  /\ outfitRecommendations (fireTimer (stopListening heardWork)) = workSet
  /\ sessionState (fireTimer (stopListening heardWork)) = Resolved.
Proof.
  apply (stop_keeps_pending_resolution heardWork "Heading to work" []);
    reflexivity.
Defined.

(** C4, as stated, fails: capture is on, a final transcript was heard and
    its settle timer is pending; after [stopListening] the timer fires and
    the work set is recommended. *)
Lemma stop_does_not_cancel :
  sessionState heardWork = Listening
  /\ timers heardWork = ["Heading to work"]
  /\ ~ stopCancelsResolution heardWork.
Proof.
  split; [reflexivity | split; [reflexivity|]].
  intros [_ H]; specialize (H 1); discriminate H.
Qed.




(** C6.  In a resolved state of a session, whatever handlers ran before,
    [resetApp] gives an idle session with an empty transcript and an empty
    recommendation list. *)
Theorem reset_after_resolved (window : Platform.Window) (s : State) :
  reachable window s ->
  sessionState s = Resolved ->
  sessionState (resetApp s) = Idle
  /\ transcript (resetApp s) = ""
  /\ outfitRecommendations (resetApp s) = [].
Proof.
  intros Hr Hs; apply reachable_notBoth in Hr; unfold notBoth in Hr.
  revert Hs; unfold sessionState; unfold_handlers; simpl.
  destruct (showResults s); [|destruct (isListening s); discriminate].
  rewrite Hr by reflexivity; repeat split.
Qed.

Lemma reset_after_resolved_witness :
  sessionState (resetApp resolvedWork) = Idle
  /\ transcript (resetApp resolvedWork) = ""
  /\ outfitRecommendations (resetApp resolvedWork) = [].
Proof.
  apply (reset_after_resolved chrome resolvedWork); [|reflexivity].
  apply (reach_step anyTime chrome (PromptClick "Heading to work"));
    [apply reach_mount | reflexivity].
Defined.

(** C8.  When the window has neither recognizer constructor, in every state
    of the session [startListening] changes nothing, and the session is
    not listening before or after it. *)
Theorem start_without_recognition (window : Platform.Window) (s : State) :
  Platform.hasSpeechRecognition window = false ->
  Platform.hasWebkitSpeechRecognition window = false ->
  reachable window s ->
  startListening s = s
  /\ sessionState s <> Listening
  /\ sessionState (startListening s) <> Listening.
Proof.
  intros H1 H2 Hr.
  destruct (reachable_absent window s H1 H2 Hr) as [Hnone Hl].
  assert (Hid : startListening s = s)
    by (unfold startListening, hasRecognition; now rewrite Hnone).
  rewrite Hid; unfold sessionState; rewrite Hl.
  repeat split; destruct (showResults s); discriminate.
Qed.

Lemma start_without_recognition_witness :
  startListening (perform StartListening (mount noSpeech)) = perform StartListening (mount noSpeech)
  /\ sessionState (perform StartListening (mount noSpeech)) <> Listening
  /\ sessionState (startListening (perform StartListening (mount noSpeech))) <> Listening.
Proof.
  apply (start_without_recognition noSpeech); try reflexivity.
  apply reach_step; [apply reach_mount | reflexivity].
Defined.

(** C10.  When [startListening] goes ahead (there is a recognizer and
    capture is off) the transcript is cleared, the results view is left and
    capture is on, and the recommendation list is the one from before. *)
Theorem startListening_frame (s : State) :
  hasRecognition s = true ->
  isListening s = false ->
  outfitRecommendations (startListening s) = outfitRecommendations s
  /\ transcript (startListening s) = ""
  /\ showResults (startListening s) = false
  /\ isListening (startListening s) = true.
Proof.
  unfold_handlers; intros -> ->; simpl; repeat split.
Qed.

Lemma startListening_frame_witness :
  outfitRecommendations (startListening resolvedWork) = workSet
  /\ transcript (startListening resolvedWork) = ""
  /\ showResults (startListening resolvedWork) = false
  /\ isListening (startListening resolvedWork) = true.
Proof.
  apply (startListening_frame resolvedWork); reflexivity.
Defined.

(** * Further properties of the component *)

(** ** The dispatch, read on the phrase as typed *)

Module DispatchFacts.

Lemma lowerChar_idempotent (c : ascii) : lowerChar (lowerChar c) = lowerChar c.
Proof.
  destruct c as [[] [] [] [] [] [] [] []]; reflexivity.
Qed.

Lemma toLowerCase_idempotent (s : string) :
  toLowerCase (toLowerCase s) = toLowerCase s.
Proof.
  induction s as [|c s IH]; simpl; [reflexivity|].
  now rewrite lowerChar_idempotent, IH.
Qed.

Lemma includes_extend (s k pre post : string) :
  includes (toLowerCase s) k = true ->
  includes (toLowerCase (pre ++ s ++ post)) k = true.
Proof.
  intros H; apply includes_spec in H as (a & b & H).
  apply includes_spec.
  exists (toLowerCase pre ++ a)%string, (b ++ toLowerCase post)%string.
  rewrite !toLowerCase_app, H, !append_assoc; reflexivity.
Qed.

End DispatchFacts.

Import DispatchFacts.

(** Which branch the dispatch takes, by the three tests of the source. *)
Lemma resolve_branches (phrase : string) :
  let l := toLowerCase phrase in
  let d := includes l "date" || includes l "dinner" in
  let b := includes l "brunch" || includes l "friends" in
  let w := includes l "work" || includes l "office" in
  (resolve phrase = dateNightSet <-> d = true)
  /\ (resolve phrase = brunchSet <-> d = false /\ b = true)
  /\ (resolve phrase = workSet <-> d = false /\ b = false /\ w = true)
  /\ (resolve phrase = casualSet <-> d = false /\ b = false /\ w = false).
Proof.
  intros l d b w; unfold resolve; fold l; fold d; fold b; fold w.
  destruct d, b, w; repeat split; intros; try discriminate;
    try reflexivity;
    repeat match goal with H : _ /\ _ |- _ => destruct H end;
    try discriminate.
Qed.

(** X1.  The set the dispatch returns tells which of its tests on the
    lower-cased phrase passed: the date-night set exactly when "date" or
    "dinner" was found; the brunch set exactly when neither was and
    "brunch" or "friends" was; the work set exactly when none of those
    four was and "work" or "office" was; the casual set exactly when none
    of the six was.  So a phrase that does not get the date-night set holds
    neither "date" nor "dinner" in any mix of cases, and a phrase that gets
    the casual set holds none of the six keywords in any mix of cases. *)
Theorem resolve_tells_branch (phrase : string) :
  let l := toLowerCase phrase in
  let d := includes l "date" || includes l "dinner" in
  let b := includes l "brunch" || includes l "friends" in
  let w := includes l "work" || includes l "office" in
  (resolve phrase = dateNightSet <-> d = true)
  /\ (resolve phrase = brunchSet <-> d = false /\ b = true)
  /\ (resolve phrase = workSet <-> d = false /\ b = false /\ w = true)
  /\ (resolve phrase = casualSet <-> d = false /\ b = false /\ w = false)
  /\ (resolve phrase <> dateNightSet ->
      ~ containsCI phrase "date" /\ ~ containsCI phrase "dinner")
  /\ (resolve phrase = casualSet ->
      forall k, In k ["date"; "dinner"; "brunch"; "friends"; "work"; "office"] ->
                ~ containsCI phrase k).
Proof.
  intros l d b w.
  destruct (resolve_branches phrase) as (H1 & H2 & H3 & H4).
  fold l in H1, H2, H3, H4; fold d in H1, H2, H3, H4;
    fold b in H2, H3, H4; fold w in H3, H4.
  repeat (split; [assumption|]); split.
  - intros Hn.
    assert (Hd : d = false)
      by (destruct d; [exfalso; apply Hn, H1; reflexivity | reflexivity]).
    apply orb_false_iff in Hd as [Hd1 Hd2].
    split; intros Hc; apply containsCI_includes in Hc; try reflexivity;
      fold l in Hc; congruence.
  - intros Hc k Hk Hin.
    apply H4 in Hc as (Hd & Hb & Hw).
    apply orb_false_iff in Hd as [Hd1 Hd2].
    apply orb_false_iff in Hb as [Hb1 Hb2].
    apply orb_false_iff in Hw as [Hw1 Hw2].
    simpl in Hk.
    repeat (destruct Hk as [<- | Hk];
            [apply containsCI_includes in Hin; try reflexivity;
             fold l in Hin; congruence|]).
    destruct Hk.
Qed.

Lemma resolve_tells_branch_witness :
  ~ containsCI "going for a walk" "work".
Proof.
  destruct (resolve_tells_branch "going for a walk") as (_ & _ & _ & _ & _ & H).
  apply H; [reflexivity | simpl; auto 10].
Defined.

(** X2.  The dispatch does not see the case of the phrase: the lower-cased
    phrase resolves to the same set as the phrase. *)
Theorem resolve_lower_cased (phrase : string) :
  resolve (toLowerCase phrase) = resolve phrase.
Proof.
  unfold resolve; now rewrite toLowerCase_idempotent.
Qed.

(** X3.  Text added before and after a phrase never moves it down the
    priority order: a date-night phrase stays one, a brunch phrase becomes
    at most a date-night one, a work phrase never becomes casual, and a
    phrase whose extension is casual was casual. *)
Theorem resolve_extension (phrase pre post : string) :
  let longer := (pre ++ phrase ++ post)%string in
  (resolve phrase = dateNightSet -> resolve longer = dateNightSet)
  /\ (resolve phrase = brunchSet ->
      resolve longer = dateNightSet \/ resolve longer = brunchSet)
  /\ (resolve phrase = workSet -> resolve longer <> casualSet)
  /\ (resolve longer = casualSet -> resolve phrase = casualSet).
Proof.
  intros longer.
  assert (Hext : forall k1 k2,
             includes (toLowerCase phrase) k1 || includes (toLowerCase phrase) k2 = true ->
             includes (toLowerCase longer) k1 || includes (toLowerCase longer) k2 = true).
  { intros k1 k2 H; apply orb_true_iff in H; apply orb_true_iff.
    destruct H as [H | H]; [left | right]; now apply includes_extend. }
  destruct (resolve_branches phrase) as (P1 & P2 & P3 & P4).
  destruct (resolve_branches longer) as (L1 & L2 & L3 & L4).
  pose proof (Hext "date" "dinner") as Ed.
  pose proof (Hext "brunch" "friends") as Eb.
  pose proof (Hext "work" "office") as Ew.
  rewrite P1, P2, P3, P4, L1, L2, L4.
  destruct (includes (toLowerCase phrase) "date" || includes (toLowerCase phrase) "dinner"),
           (includes (toLowerCase phrase) "brunch" || includes (toLowerCase phrase) "friends"),
           (includes (toLowerCase phrase) "work" || includes (toLowerCase phrase) "office"),
           (includes (toLowerCase longer) "date" || includes (toLowerCase longer) "dinner"),
           (includes (toLowerCase longer) "brunch" || includes (toLowerCase longer) "friends"),
           (includes (toLowerCase longer) "work" || includes (toLowerCase longer) "office");
    intuition congruence.
Qed.

Lemma resolve_extension_witness :
  resolve "a DINNER with friends" = dateNightSet.
Proof.
  destruct (resolve_extension "DINNER" "a " " with friends") as (H & _).
  apply H; reflexivity.
Defined.

(** ** Result events, further *)

(** What a result event does to the state besides setting the transcript. *)
Lemma onresult_effect (event : Platform.SpeechRecognitionEvent) (s : State) :
  timers (onresult event s) =
    match finalText event with
    | EmptyString => timers s
    | String _ _ => timers s ++ [finalText event]
    end
  /\ isListening (onresult event s) = isListening s
  /\ showResults (onresult event s) = showResults s
  /\ outfitRecommendations (onresult event s) = outfitRecommendations s
  /\ recognitionRef (onresult event s) = recognitionRef s
  /\ console (onresult event s) = console s.
Proof.
  unfold onresult; rewrite transcripts_spec.
  destruct (finalText event); repeat split.
Qed.

(** X4.  A result event schedules a resolution exactly when the final
    segments it delivers have a non-empty text, and then for that text,
    behind the timers already pending.  It leaves the flags, the
    recommendations, the recognizer and the console as they are. *)
Theorem onresult_schedules (event : Platform.SpeechRecognitionEvent) (s : State) :
  timers (onresult event s) =
    match finalText event with
    | EmptyString => timers s
    | String _ _ => timers s ++ [finalText event]
    end
  /\ isListening (onresult event s) = isListening s
  /\ showResults (onresult event s) = showResults s
  /\ outfitRecommendations (onresult event s) = outfitRecommendations s
  /\ recognitionRef (onresult event s) = recognitionRef s
  /\ console (onresult event s) = console s.
Proof.
  unfold onresult; rewrite transcripts_spec; simpl.
  unfold andThen, skip.
  destruct (finalText event); simpl; repeat split.
Qed.

(** X5.  An event whose [resultIndex] is at or past the end of [results]
    delivers nothing: the transcript becomes empty and no resolution is
    scheduled.  And for every event, the transcript shown before it has no
    part in the state after it: the event replaces the transcript. *)
Theorem onresult_out_of_range (event : Platform.SpeechRecognitionEvent)
        (s : State) :
  (length (Platform.results event) <= Platform.resultIndex event ->
   onresult event s = setTranscript "" s)
  /\ (forall t, onresult event (setTranscript t s) = onresult event s).
Proof.
  split.
  - intros H; unfold onresult; rewrite transcripts_spec.
    unfold finalText, interimText, segments.
    rewrite skipn_all2 by assumption; reflexivity.
  - intros t; unfold onresult, andThen, skip.
    destruct (truthy _); reflexivity.
Qed.

Lemma onresult_out_of_range_witness :
  onresult (Platform.mkEvent [Platform.mkResult "Heading to work" true] 1)
           heardWork
  = setTranscript "" heardWork.
Proof.
  destruct (onresult_out_of_range
              (Platform.mkEvent [Platform.mkResult "Heading to work" true] 1)
              heardWork) as [H _].
  apply H; simpl; lia.
Defined.

(** ** Timers *)

Lemma timers_after (a : Action) (s : State) :
  a <> TimerFires -> exists extra, timers (perform a s) = timers s ++ extra.
Proof.
  intros Ha; destruct a; try congruence; clear Ha;
    try (exists []; rewrite app_nil_r; unfold_handlers; split_ifs; reflexivity).
  destruct (onresult_effect event s) as [H _]; simpl; rewrite H.
  destruct (finalText event); [exists []; now rewrite app_nil_r | eauto].
Qed.

(** X6.  No handler cancels a timer: after any action other than the
    firing of a timer, the timers pending before are still pending, in
    front and in order; a firing removes the oldest one only. *)
Theorem timers_never_cancelled (a : Action) (s : State) :
  (a <> TimerFires -> exists extra, timers (perform a s) = timers s ++ extra)
  /\ timers (perform TimerFires s) = tl (timers s).
Proof.
  split; [apply timers_after|].
  unfold perform, fireTimer; destruct (timers s) eqn:E; [now rewrite E|].
  unfold_handlers; simpl; now rewrite E.
Qed.

Lemma timers_never_cancelled_witness :
  exists extra, timers (perform StopListening heardWork) = timers heardWork ++ extra.
Proof.
  destruct (timers_never_cancelled StopListening heardWork) as [H _].
  apply H; discriminate.
Defined.

(** X7.  Whatever handlers ran, every pending timer holds a non-empty
    transcript: a timer never resolves the empty phrase. *)
Theorem pending_timers_nonempty (window : Platform.Window) (s : State) :
  reachable window s -> Forall (fun t => t <> "") (timers s).
Proof.
  induction 1 as [|a s Hs IH _]; [constructor|].
  destruct a;
    try (unfold_handlers; split_ifs; simpl; assumption).
  - destruct (onresult_effect event s) as [H _]; simpl; rewrite H.
    destruct (finalText event) eqn:E; [assumption|].
    apply Forall_app; split; [assumption|].
    constructor; [discriminate | constructor].
  - unfold perform, fireTimer; destruct (timers s) eqn:E; [now rewrite E|].
    unfold_handlers; simpl; rewrite E; simpl.
    now inversion IH.
Qed.

Lemma pending_timers_nonempty_witness :
  Forall (fun t => t <> "") (timers heardWork).
Proof.
  apply (pending_timers_nonempty chrome heardWork).
  unfold heardWork.
  apply (reach_step anyTime chrome (OnResult workEvent)); [|reflexivity].
  apply (reach_step anyTime chrome StartListening); [|reflexivity].
  apply reach_mount.
Defined.

(** X8.  A final transcript heard with no other timer pending, once its
    timer fires, leaves what clicking a prompt of the same text leaves:
    the same transcript, the same recommendations, the results view on,
    capture off, and no timer pending. *)
Theorem voice_matches_prompt (event : Platform.SpeechRecognitionEvent)
        (s : State) :
  timers s = [] ->
  finalText event <> "" ->
  let heard := fireTimer (onresult event s) in
  let clicked := handlePromptClick (finalText event) s in
  transcript heard = transcript clicked
  /\ outfitRecommendations heard = outfitRecommendations clicked
  /\ showResults heard = showResults clicked
  /\ isListening heard = isListening clicked
  /\ timers heard = []
  /\ transcript heard = finalText event
  /\ outfitRecommendations heard = resolve (finalText event).
Proof.
  intros Ht Hf heard clicked; subst heard clicked.
  unfold onresult; rewrite transcripts_spec; simpl.
  unfold orElse, andThen, skip, fireTimer.
  destruct (finalText event) as [|c f] eqn:E; [congruence|].
  unfold_handlers; simpl; rewrite Ht; simpl.
  repeat split.
Qed.

Lemma voice_matches_prompt_witness :
  transcript (fireTimer (onresult workEvent (startListening (mount chrome))))
  = "Heading to work"
  /\ outfitRecommendations
       (fireTimer (onresult workEvent (startListening (mount chrome))))
     = workSet.
Proof.
  destruct (voice_matches_prompt workEvent (startListening (mount chrome)))
    as (_ & _ & _ & _ & _ & H1 & H2);
    [reflexivity | discriminate | split; [exact H1 | exact H2]].
Defined.

(** ** The recognizer over a session *)

(** The recognizer is the one made at mount, with the properties set
    there, for the whole session. *)
Lemma reachable_recognizer (window : Platform.Window) (s : State) :
  reachable window s ->
  match recognitionRef s with
  | None =>
      Platform.hasSpeechRecognition window
      || Platform.hasWebkitSpeechRecognition window = false
  | Some r =>
      Platform.hasSpeechRecognition window
      || Platform.hasWebkitSpeechRecognition window = true
      /\ Platform.continuous r = false
      /\ Platform.interimResults r = true
      /\ Platform.lang r = "en-US"
  end.
Proof.
  induction 1 as [|a s Hs IH _].
  - unfold mount; simpl.
    destruct (Platform.hasSpeechRecognition window
              || Platform.hasWebkitSpeechRecognition window); simpl; auto.
  - destruct a; unfold_handlers; destruct s as [l t r o [rf|] tm c];
      simpl in *;
      try (destruct l; simpl);
      try (destruct (truthy _); simpl);
      try (destruct tm; simpl);
      assumption.
Qed.

(** Capture is on only after a [start()] that no [stop()] followed. *)
Lemma reachable_last_start (window : Platform.Window) (s : State) :
  reachable window s ->
  isListening s = true ->
  exists pre, platformCalls s = pre ++ [Platform.Start].
Proof.
  induction 1 as [|a s Hs IH _].
  - discriminate.
  - destruct a; unfold platformCalls in *; unfold_handlers;
      destruct s as [l t r o [rf|] tm c]; simpl in *;
      try (destruct l; simpl);
      try (destruct (truthy _); simpl);
      try (destruct tm; simpl);
      solve [ assumption | discriminate | eauto ].
Qed.

(** X9.  With either constructor in the window, whenever capture is off
    [startListening] goes ahead: the session is listening, the transcript
    is empty, and exactly one [start()] more has reached the recognizer. *)
Theorem start_succeeds_when_supported (window : Platform.Window) (s : State) :
  Platform.hasSpeechRecognition window
  || Platform.hasWebkitSpeechRecognition window = true ->
  reachable window s ->
  isListening s = false ->
  sessionState (startListening s) = Listening
  /\ transcript (startListening s) = ""
  /\ platformCalls (startListening s) = platformCalls s ++ [Platform.Start].
Proof.
  intros Hw Hr Hl; apply reachable_recognizer in Hr.
  unfold sessionState, platformCalls; unfold_handlers.
  destruct s as [l t r o [rf|] tm c]; simpl in *.
  - subst l; simpl; repeat split.
  - congruence.
Qed.

Lemma start_succeeds_when_supported_witness :
  sessionState (startListening resolvedWork) = Listening
  /\ transcript (startListening resolvedWork) = ""
  /\ platformCalls (startListening resolvedWork)
     = platformCalls resolvedWork ++ [Platform.Start].
Proof.
  apply (start_succeeds_when_supported chrome resolvedWork);
    try reflexivity.
  apply (reach_step anyTime chrome (PromptClick "Heading to work"));
    [apply reach_mount | reflexivity].
Defined.

(** X10.  Through a whole session the recognizer is there exactly when the
    window had one of the two constructors at mount, and it keeps the
    properties set at mount: not continuous, interim results on, language
    en-US. *)
Theorem recognizer_configuration (window : Platform.Window) (s : State) :
  reachable window s ->
  hasRecognition s =
    Platform.hasSpeechRecognition window
    || Platform.hasWebkitSpeechRecognition window
  /\ forall r, recognitionRef s = Some r ->
       Platform.continuous r = false
       /\ Platform.interimResults r = true
       /\ Platform.lang r = "en-US".
Proof.
  intros Hr; apply reachable_recognizer in Hr.
  unfold hasRecognition; destruct (recognitionRef s) as [r|].
  - destruct Hr as (-> & Hc); split; [reflexivity|].
    intros r' E; injection E as <-; exact Hc.
  - rewrite Hr; split; [reflexivity | discriminate].
Qed.

Lemma recognizer_configuration_witness :
  hasRecognition heardWork = true
  /\ forall r, recognitionRef heardWork = Some r ->
       Platform.continuous r = false
       /\ Platform.interimResults r = true
       /\ Platform.lang r = "en-US".
Proof.
  apply (recognizer_configuration chrome heardWork).
  apply (reach_step anyTime chrome (OnResult workEvent)); [|reflexivity].
  apply (reach_step anyTime chrome StartListening); [|reflexivity].
  apply reach_mount.
Defined.

(** X12.  Whenever capture is on, there is a recognizer, its last call was
    [start()] and the results view is off; [stopListening] then issues
    exactly one [stop()] and the session is idle. *)
Theorem stop_succeeds_when_listening (window : Platform.Window) (s : State) :
  reachable window s ->
  isListening s = true ->
  hasRecognition s = true
  /\ showResults s = false
  /\ (exists pre, platformCalls s = pre ++ [Platform.Start])
  /\ sessionState (stopListening s) = Idle
  /\ platformCalls (stopListening s) = platformCalls s ++ [Platform.Stop].
Proof.
  intros Hr Hl.
  pose proof (reachable_notBoth _ _ _ Hr) as Hn.
  apply reachable_last_start in Hr as Hc; [|exact Hl].
  unfold notBoth in Hn; unfold sessionState, platformCalls in *; unfold_handlers.
  destruct s as [l t r o [rf|] tm c]; simpl in *; subst l.
  - destruct r; [specialize (Hn eq_refl); discriminate|].
    simpl; repeat split; assumption.
  - destruct Hc as [pre Hc]; destruct pre; discriminate.
Qed.

Lemma stop_succeeds_when_listening_witness :
  sessionState (stopListening heardWork) = Idle
  /\ platformCalls (stopListening heardWork)
     = platformCalls heardWork ++ [Platform.Stop].
Proof.
  destruct (stop_succeeds_when_listening chrome heardWork)
    as (_ & _ & _ & H1 & H2); [|reflexivity|split; assumption].
  apply (reach_step anyTime chrome (OnResult workEvent)); [|reflexivity].
  apply (reach_step anyTime chrome StartListening); [|reflexivity].
  apply reach_mount.
Defined.

(** ** Runs and the console *)

Lemma console_step (a : Action) (s : State) :
  console (perform a s) = console s ++ errorLines [a].
Proof.
  destruct a; simpl; rewrite ?app_nil_r;
    unfold_handlers; split_ifs; reflexivity.
Qed.

Lemma errorLines_cons (a : Action) (rest : list Action) :
  errorLines (a :: rest) = errorLines [a] ++ errorLines rest.
Proof.
  destruct a; reflexivity.
Qed.

(** X13.  The console of a session holds one line per error event, in the
    order of the events, each with the event's [error] text; no other
    handler writes to it. *)
Theorem console_is_error_log (actions : list Action) (s : State) :
  console (run actions s) = console s ++ errorLines actions.
Proof.
  unfold run; revert s; induction actions as [|a rest IH]; intros s.
  - simpl; now rewrite app_nil_r.
  - cbn [fold_left]; rewrite IH, console_step, (errorLines_cons a rest).
    now rewrite app_assoc.
Qed.

(** ** The results view *)

Lemma reachable_canned (allowed : Action -> State -> bool)
      (window : Platform.Window) (s : State) :
  reachableBy allowed window s ->
  (showResults s = true -> outfitRecommendations s <> [])
  /\ In (outfitRecommendations s)
        [[]; dateNightSet; brunchSet; workSet; casualSet].
Proof.
  induction 1 as [|a s Hs [IH1 IH2] _].
  - split; [discriminate | simpl; auto].
  - destruct a; simpl.
    + unfold_handlers; split_ifs; simpl; auto; split; [discriminate | auto].
    + unfold_handlers; split_ifs; simpl; auto.
    + unfold_handlers; simpl.
      split; [intros _; apply resolve_nonempty | right; apply resolve_cases].
    + split; [discriminate | simpl; auto].
    + destruct (onresult_effect event s) as (_ & _ & -> & -> & _); auto.
    + split; assumption.
    + split; assumption.
    + unfold fireTimer; destruct (timers s); [auto|].
      unfold_handlers; simpl.
      split; [intros _; apply resolve_nonempty | right; apply resolve_cases].
Qed.

(** X15.  Whenever the results view is rendered, whatever handlers ran, it
    shows the transcript after "For: " and exactly three cards, with the
    distinct keys Top, Bottom, Footwear in that order and three lines
    each, made from one of the four sets. *)
Theorem results_view_cards (window : Platform.Window) (s : State)
        (forLine : string) (cards : list Card) :
  reachable window s ->
  render s = ResultsView forLine cards ->
  forLine = ("For: " ++ transcript s)%string
  /\ map cardKey cards = ["Top"; "Bottom"; "Footwear"]
  /\ NoDup (map cardKey cards)
  /\ Forall (fun c => length (cardLines c) = 3) cards
  /\ In cards (map (map card) [dateNightSet; brunchSet; workSet; casualSet]).
Proof.
  intros Hr Hv; apply reachable_canned in Hr as [Hne Hin].
  unfold render in Hv; destruct (showResults s); [|discriminate].
  injection Hv as <- <-; specialize (Hne eq_refl).
  split; [reflexivity|].
  destruct Hin as [E | Hin]; [congruence|].
  assert (Hkeys : forall set,
             In set [dateNightSet; brunchSet; workSet; casualSet] ->
             map cardKey (map card set) = ["Top"; "Bottom"; "Footwear"]
             /\ Forall (fun c => length (cardLines c) = 3) (map card set)).
  { intros set Hs; simpl in Hs.
    destruct Hs as [<- | [<- | [<- | [<- | []]]]];
      (split; [reflexivity | repeat constructor]). }
  destruct (Hkeys _ Hin) as [Hk Hl]; rewrite Hk.
  repeat split; try assumption.
  - repeat constructor; simpl; intuition discriminate.
  - now apply in_map.
Qed.

Lemma results_view_cards_witness :
  map cardKey (map card (outfitRecommendations resolvedWork))
  = ["Top"; "Bottom"; "Footwear"].
Proof.
  destruct (results_view_cards chrome resolvedWork
              ("For: " ++ transcript resolvedWork)%string
              (map card (outfitRecommendations resolvedWork)))
    as (_ & H & _); [|reflexivity|exact H].
  apply (reach_step anyTime chrome (PromptClick "Heading to work"));
    [apply reach_mount | reflexivity].
Defined.

(** ** What the other handlers leave alone *)

(** X17.  Only the two microphone handlers reach the recognizer: a prompt
    click, a reset, a result, error or end event and the firing of a timer
    leave it, and the calls made on it, as they are, also while capture is
    on. *)
Theorem only_microphone_reaches_recognizer (a : Action) (s : State) :
  a <> StartListening -> a <> StopListening ->
  recognitionRef (perform a s) = recognitionRef s
  /\ platformCalls (perform a s) = platformCalls s.
Proof.
  intros H1 H2.
  assert (E : recognitionRef (perform a s) = recognitionRef s).
  { destruct a; try congruence; clear H1 H2;
      unfold_handlers; split_ifs; reflexivity. }
  split; [exact E | unfold platformCalls; now rewrite E].
Qed.

Lemma only_microphone_reaches_recognizer_witness :
  platformCalls (perform (PromptClick "Heading to work") heardWork)
  = platformCalls heardWork.
Proof.
  destruct (only_microphone_reaches_recognizer
              (PromptClick "Heading to work") heardWork) as [_ H];
    [discriminate | discriminate | exact H].
Defined.

Lemma fireTimer_cons (s : State) (t : string) (rest : list string) :
  timers s = t :: rest ->
  timers (fireTimer s) = rest
  /\ outfitRecommendations (fireTimer s) = resolve t
  /\ showResults (fireTimer s) = true
  /\ isListening (fireTimer s) = false.
Proof.
  intros E; unfold fireTimer; rewrite E.
  unfold_handlers; simpl; rewrite E; repeat split.
Qed.

Lemma timers_drain_from (pending : list string) :
  forall s t, timers s = t :: pending ->
    let s' := Nat.iter (length (t :: pending)) fireTimer s in
    timers s' = []
    /\ outfitRecommendations s' = resolve (last (t :: pending) "")
    /\ showResults s' = true
    /\ isListening s' = false.
Proof.
  induction pending as [|u pending IH]; intros s t E.
  - simpl; now apply fireTimer_cons.
  - destruct (fireTimer_cons s t (u :: pending) E) as (E' & _).
    specialize (IH (fireTimer s) u E').
    change (length (t :: u :: pending)) with (S (length (u :: pending))).
    rewrite Nat.iter_succ_r.
    change (last (t :: u :: pending) "") with (last (u :: pending) "").
    exact IH.
Qed.

(** X18.  Once all the pending timers have fired, none is pending, the
    results view is on, capture is off, and the recommendations are those
    of the transcript heard last. *)
Theorem timers_drain (s : State) :
  timers s <> [] ->
  let s' := Nat.iter (length (timers s)) fireTimer s in
  timers s' = []
  /\ outfitRecommendations s' = resolve (last (timers s) "")
  /\ showResults s' = true
  /\ isListening s' = false.
Proof.
  intros H; destruct (timers s) as [|t pending] eqn:E; [congruence|].
  now apply timers_drain_from.
Qed.

Lemma timers_drain_witness :
  outfitRecommendations
    (Nat.iter (length (timers (onresult workEvent heardWork))) fireTimer
              (onresult workEvent heardWork))
  = workSet.
Proof.
  destruct (timers_drain (onresult workEvent heardWork)) as (_ & H & _);
    [discriminate | exact H].
Defined.

(** X19.  How a session changes state, whatever handlers ran before: it
    starts listening through [startListening] only; it becomes resolved
    through a prompt click or the firing of a timer only; and it leaves the
    resolved state through [resetApp] or [startListening] only. *)
Theorem session_transitions (window : Platform.Window) (a : Action)
        (s : State) :
  reachable window s ->
  (sessionState s <> Listening -> sessionState (perform a s) = Listening ->
   a = StartListening)
  /\ (sessionState s <> Resolved -> sessionState (perform a s) = Resolved ->
      (exists prompt, a = PromptClick prompt) \/ a = TimerFires)
  /\ (sessionState s = Resolved -> sessionState (perform a s) <> Resolved ->
      a = ResetApp \/ a = StartListening).
Proof.
  intros Hr; apply reachable_notBoth in Hr; unfold notBoth in Hr.
  assert (Hres : forall event,
             sessionState (onresult event s) = sessionState s).
  { intros event; unfold sessionState.
    now destruct (onresult_effect event s) as (_ & -> & -> & _). }
  destruct a; simpl; rewrite ?Hres; clear Hres;
    repeat split; intros H1 H2; eauto; try contradiction;
    exfalso; revert Hr H1 H2; unfold sessionState; unfold_handlers;
    destruct s as [l t r o [rf|] tm c], l, r; simpl;
    try (destruct tm; simpl); intros Hr H1 H2;
    try congruence; specialize (Hr eq_refl); discriminate.
Qed.

Lemma session_transitions_witness :
  (exists prompt, PromptClick "Heading to work" = PromptClick prompt)
  \/ PromptClick "Heading to work" = TimerFires.
Proof.
  destruct (session_transitions chrome (PromptClick "Heading to work")
              (mount chrome) (reach_mount anyTime chrome))
    as (_ & H & _).
  apply H; [discriminate | reflexivity].
Defined.
